(** * ColorGame: the colour guessing component, embedded and verified

    Source: [src/components/color-game.tsx], one React component.

    The component keeps six pieces of state ([useState]), draws colours
    from [Math.random], renders every colour as the CSS string
    [hsl(h, s%, l%)] and compares colours with [===] on those strings.

    The embedding follows the code:
    - colours are [string]s, as in the source; the numeric components
      exist only while a colour is being generated;
    - [Math.random] is an explicit source of samples threaded through
      every function that draws from it;
    - the [while] loop of [resetGame] takes fuel, because a source that
      keeps repeating itself keeps the loop running;
    - the two [setTimeout] callbacks are a queue of pending timers: both
      delays are 1500 ms, so timers fire in the order they were set. *)

From Stdlib Require Import ZArith List String Ascii Bool Lia Permutation.
From Stdlib Require Import Decimal DecimalString DecimalZ DecimalPos.
Import ListNotations.

#[local] Open Scope string_scope.
#[local] Open Scope Z_scope.

(* ===================================================================== *)
(** * The JavaScript the component runs on *)
(* ===================================================================== *)

Module Js.

(** ** Numbers in template literals

    [`${n}`] on a number that holds an integer prints its decimal
    digits, with a leading minus sign below zero and the digit 0 for zero. *)

Definition number_to_string (n : Z) : string :=
  NilZero.string_of_int (Z.to_int n).

(** [occurs c s]: the character [c] appears in [s]. *)
Fixpoint occurs (c : ascii) (s : string) : bool :=
  match s with
  | EmptyString => false
  | String a s' => Ascii.eqb a c || occurs c s'
  end.

(** The characters a printed integer is made of. *)
Definition is_numeric (c : ascii) : bool :=
  match c with
  | "0" | "1" | "2" | "3" | "4" | "5" | "6" | "7" | "8" | "9" | "-" => true
  | _ => false
  end%char.

(** ** [Math.random]

    A call returns a double [u] with [0 <= u < 1].  The source of
    randomness is a sequence of such samples and a cursor on the next
    one; a sample is held as the numerator [k] of [u = k / 2^53], which
    is the grid the engines draw from. *)

Record Rng : Type := mkRng { samples : nat -> Z; cursor : nat }.

Definition two53 : Z := 2 ^ 53.

(** Computations that draw from the source. *)
Definition Rand (A : Type) : Type := Rng -> A * Rng.

Definition ret {A} (a : A) : Rand A := fun g => (a, g).

Definition bind {A B} (m : Rand A) (k : A -> Rand B) : Rand B :=
  fun g => let (a, g1) := m g in k a g1.

(** [Math.random()], as the numerator of the sample. *)
Definition Math_random : Rand Z :=
  fun g => (samples g (cursor g) mod two53, mkRng (samples g) (S (cursor g))).

(** [Math.floor(Math.random() * n)].  The product is taken exactly; the
    rounding of the double product can move a sample up to the next
    integer, never up to [n], so the values drawn are the same. *)
Definition floor_random_times (n : Z) : Rand Z :=
  bind Math_random (fun k => ret (k * n / two53)).

(** The comparator [() => Math.random() - 0.5]: its sign. *)
Definition random_comparator : Rand Z :=
  bind Math_random (fun k => ret (Z.sgn (2 * k - two53))).

(** ** [Array.prototype.sort] with a comparator that draws

    The order in which [sort] calls its comparator is left to the
    engine.  For arrays this short the engines insert one element after
    the other into the sorted part, which is what is modelled: [x] goes
    before [y] unless the comparator answers a positive number. *)

Fixpoint insert {A} (x : A) (sorted : list A) : Rand (list A) :=
  match sorted with
  | [] => ret [x]
  | y :: ys =>
      bind random_comparator (fun c =>
        if c <=? 0 then ret (x :: y :: ys)
        else bind (insert x ys) (fun r => ret (y :: r)))
  end.

Fixpoint sort {A} (l : list A) : Rand (list A) :=
  match l with
  | [] => ret []
  | x :: xs => bind (sort xs) (fun s => insert x s)
  end.

(** [a % b] of JavaScript: the remainder has the sign of [a]. *)
Definition rem (a b : Z) : Z := Z.rem a b.

(** [arr.includes(x)] on an array of strings. *)
Definition includes (x : string) (arr : list string) : bool :=
  existsb (String.eqb x) arr.

End Js.

Declare Scope rand_scope.
Delimit Scope rand_scope with rand.
Notation "x <- m ;; k" := (Js.bind m (fun x => k))
  (at level 61, m at next level, right associativity) : rand_scope.

(* ===================================================================== *)
(** * The component *)
(* ===================================================================== *)

Module ColorGame.

Import Js.
#[local] Open Scope rand_scope.

(** ** State: the six [useState] cells *)

Record State : Type := mkState {
  targetColor : string;        (* colour the player has to find *)
  colorOptions : list string;  (* the colour choices *)
  score : Z;                   (* the player's score, an integer count *)
  gameStatus : string;         (* feedback message *)
  isAnimating : bool;          (* disables the option buttons *)
  textColor : string           (* text colour of the feedback *)
}.

(** The values passed to [useState]. *)
Definition initialState : State :=
  mkState EmptyString [] 0 EmptyString false "text-gray-800".

Definition setTargetColor (v : string) (s : State) : State :=
  mkState v (colorOptions s) (score s) (gameStatus s) (isAnimating s) (textColor s).

Definition setColorOptions (v : list string) (s : State) : State :=
  mkState (targetColor s) v (score s) (gameStatus s) (isAnimating s) (textColor s).

Definition setScore (f : Z -> Z) (s : State) : State :=
  mkState (targetColor s) (colorOptions s) (f (score s)) (gameStatus s)
          (isAnimating s) (textColor s).

Definition setGameStatus (v : string) (s : State) : State :=
  mkState (targetColor s) (colorOptions s) (score s) v (isAnimating s) (textColor s).

Definition setIsAnimating (v : bool) (s : State) : State :=
  mkState (targetColor s) (colorOptions s) (score s) (gameStatus s) v (textColor s).

Definition setTextColor (v : string) (s : State) : State :=
  mkState (targetColor s) (colorOptions s) (score s) (gameStatus s) (isAnimating s) v.

(** ** Colours *)

(** The template literal [`hsl(${hue}, ${saturation}%, ${lightness}%)`]. *)
Definition hsl (hue saturation lightness : Z) : string :=
  "hsl(" ++ number_to_string hue ++ ", " ++ number_to_string saturation
         ++ "%, " ++ number_to_string lightness ++ "%)".

(** [generateRandomColor]: [baseHue ?? ...] keeps every number, 0 too,
    and draws a hue only for [null]. *)
Definition generateRandomColor (baseHue : option Z) : Rand string :=
  hue <- match baseHue with
         | Some h => ret h
         | None => floor_random_times 360
         end ;;
  s <- floor_random_times 30 ;;
  l <- floor_random_times 20 ;;
  ret (hsl hue (70 + s) (45 + l)).

(** The local [hueVariation] of [generateSimilarColor]. *)
Definition hueVariation : Rand Z :=
  v <- floor_random_times 30 ;; ret (v - 15).

(** [generateSimilarColor]. *)
Definition generateSimilarColor (baseHue : Z) : Rand string :=
  v <- hueVariation ;;
  generateRandomColor (Some (rem (baseHue + v + 360) 360)).

(** ** Starting a round *)

(** The loop [while (options.length < 6) { ... }] of [resetGame].  Every
    turn draws one colour and pushes it unless [options] has it already.
    [None]: the fuel ran out with fewer than six options. *)
Fixpoint fillOptions (fuel : nat) (baseHue : Z) (options : list string)
    (g : Rng) : option (list string * Rng) :=
  if (Z.of_nat (List.length options) <? 6) then
    match fuel with
    | O => None
    | S fuel' =>
        let (newColor, g1) := generateSimilarColor baseHue g in
        if negb (includes newColor options)
        then fillOptions fuel' baseHue (options ++ [newColor])%list g1
        else fillOptions fuel' baseHue options g1
    end
  else Some (options, g).

(** What [resetGame] computes before it touches the state: the base hue,
    the target and the shuffled options. *)
Record Round : Type := mkRound {
  baseHue : Z;
  newTargetColor : string;
  shuffledOptions : list string
}.

Definition newRound (fuel : nat) (g : Rng) : option (Round * Rng) :=
  let (b, g1) := floor_random_times 360 g in
  let (t, g2) := generateRandomColor (Some b) g1 in
  match fillOptions fuel b [t] g2 with
  | None => None
  | Some (options, g3) =>
      let (shuffled, g4) := sort options g3 in
      Some (mkRound b t shuffled, g4)
  end.

(** [resetGame]. *)
Definition resetGame (fuel : nat) (s : State) (g : Rng) : option (State * Rng) :=
  match newRound fuel g with
  | None => None
  | Some (r, g') =>
      Some (setTextColor "text-gray-800"
             (setIsAnimating false
               (setGameStatus EmptyString
                 (setColorOptions (shuffledOptions r)
                   (setTargetColor (newTargetColor r) s)))), g')
  end.

(** [startNewGame]. *)
Definition startNewGame (fuel : nat) (s : State) (g : Rng) : option (State * Rng) :=
  resetGame fuel (setScore (fun _ => 0) s) g.

(** ** Guessing *)

(** The two callbacks handed to [setTimeout(..., 1500)]. *)
Inductive Timer : Type :=
| AfterCorrect   (* setTextColor('text-gray-800'); resetGame() *)
| AfterWrong.    (* setTextColor('text-gray-800'); setIsAnimating(false) *)

(** [handleGuess] returns nothing; what it did shows in the state.  The
    branch it took is named after the outcomes of the interface:
    [AlreadyResolved] for the early return, [Correct] and [Incorrect]
    for the two arms of the comparison.  No branch answers
    [InvalidColor]. *)
Inductive Outcome : Type := Correct | Incorrect | AlreadyResolved | InvalidColor.

Record Guessed : Type := mkGuessed {
  outcome : Outcome;
  after : State;
  scheduled : list Timer
}.

Definition correctMessage : string := "Correct! Well done! ðŸŽ‰".
Definition wrongMessage : string := "Wrong guess! Try again! ðŸ˜¢".

Definition handleGuess (color : string) (s : State) : Guessed :=
  if isAnimating s then mkGuessed AlreadyResolved s []
  else
    let s1 := setIsAnimating true s in
    if (color =? targetColor s)%string then
      mkGuessed Correct
        (setTextColor "text-green-500"
          (setGameStatus correctMessage
            (setScore (fun prev => prev + 1) s1)))
        [AfterCorrect]
    else
      mkGuessed Incorrect
        (setTextColor "text-red-500" (setGameStatus wrongMessage s1))
        [AfterWrong].

(** A timer fires: its callback runs. *)
Definition fire (fuel : nat) (t : Timer) (s : State) (g : Rng)
    : option (State * Rng) :=
  match t with
  | AfterCorrect => resetGame fuel (setTextColor "text-gray-800" s) g
  | AfterWrong => Some (setIsAnimating false (setTextColor "text-gray-800" s), g)
  end.

(** ** The component in its event loop *)

Record Game : Type := mkGame {
  ui : State;
  pending : list Timer;   (* oldest first *)
  rng : Rng
}.

Inductive Event : Type :=
| Mount                    (* the effect that calls resetGame *)
| Guess (color : string)   (* click on an option button *)
| NewGame                  (* click on the New Game button *)
| Timeout.                 (* the oldest pending timer fires *)

Definition step (fuel : nat) (e : Event) (G : Game) : option Game :=
  match e with
  | Mount =>
      match resetGame fuel (ui G) (rng G) with
      | Some (s, g) => Some (mkGame s (pending G) g)
      | None => None
      end
  | Guess color =>
      let r := handleGuess color (ui G) in
      Some (mkGame (after r) (pending G ++ scheduled r)%list (rng G))
  | NewGame =>
      match startNewGame fuel (ui G) (rng G) with
      | Some (s, g) => Some (mkGame s (pending G) g)
      | None => None
      end
  | Timeout =>
      match pending G with
      | [] => Some G
      | t :: rest =>
          match fire fuel t (ui G) (rng G) with
          | Some (s, g) => Some (mkGame s rest g)
          | None => None
          end
      end
  end.

Fixpoint run (fuel : nat) (es : list Event) (G : Game) : option Game :=
  match es with
  | [] => Some G
  | e :: es' =>
      match step fuel e G with
      | Some G' => run fuel es' G'
      | None => None
      end
  end.

Definition start (g : Rng) : Game := mkGame initialState [] g.

(** What the player can tell of a game: target, score, whether the
    option buttons are disabled, and the timers that are still to fire. *)
Definition snapshot (G : Game) : string * Z * bool * list Timer :=
  (targetColor (ui G), score (ui G), isAnimating (ui G), pending G).

(** Buttons and timers agree: the buttons are disabled exactly while one
    timer is pending. *)
Definition inStep (G : Game) : Prop :=
  (isAnimating (ui G) = false /\ pending G = []) \/
  (isAnimating (ui G) = true /\ exists t, pending G = [t]).

(** ** Vocabulary of the properties *)

(** The colour string of a hue/saturation/lightness triple. *)
Definition render (t : Z * Z * Z) : string :=
  let '(h, s, l) := t in hsl h s l.

(** The ranges of the data model. *)
Definition inRange (t : Z * Z * Z) : Prop :=
  let '(h, s, l) := t in 0 <= h < 360 /\ 70 <= s < 100 /\ 45 <= l < 65.

(** A well-formed colour: the string of a triple within the ranges. *)
Definition wellFormed (c : string) : Prop :=
  exists t, c = render t /\ inRange t.

(** [c] is a colour that [generateSimilarColor b] can return with the
    hue offset [off]. *)
Definition similarWith (b off : Z) (c : string) : Prop :=
  exists s l, 70 <= s < 100 /\ 45 <= l < 65 /\ c = hsl ((b + off) mod 360) s l.

Definition Decoy (b : Z) (c : string) : Prop :=
  exists off, -15 <= off <= 14 /\ similarWith b off c.

(** Distance between two hues around the colour circle. *)
Definition hueDistance (h b : Z) : Z :=
  Z.min ((h - b) mod 360) ((b - h) mod 360).

(** Six options, the target among them once, no option twice. *)
Definition validRound (s : State) : Prop :=
  List.length (colorOptions s) = 6%nat /\
  count_occ string_dec (colorOptions s) (targetColor s) = 1%nat /\
  NoDup (colorOptions s).

(** Every colour on display is well formed; before the component is
    mounted the target is the empty string. *)
Definition coloursWellFormed (G : Game) : Prop :=
  Forall wellFormed (colorOptions (ui G)) /\
  (targetColor (ui G) = EmptyString \/ wellFormed (targetColor (ui G))).

(** The next [n] colours that [generateSimilarColor b] draws from [g]. *)
Fixpoint upcoming (n : nat) (b : Z) (g : Rng) : list string :=
  match n with
  | O => []
  | S n' => let (c, g1) := generateSimilarColor b g in c :: upcoming n' b g1
  end.

(** The source is varied enough for [resetGame] to finish within [fuel]
    turns of its loop: the target and the next [fuel] similar colours
    count six different strings. *)
Definition variedEnough (fuel : nat) (g : Rng) : bool :=
  let (b, g1) := floor_random_times 360 g in
  let (t, g2) := generateRandomColor (Some b) g1 in
  (6 <=? List.length (nodup string_dec (t :: upcoming fuel b g2)))%nat.

(** ** Sources used in the examples *)

(** Samples spread by the golden ratio. *)
Definition spread : Rng :=
  mkRng (fun i => Z.of_nat (S i) * 5566755282872655) 0.

(** The state the component shows once mounted on [spread]. *)
Definition firstRound : State :=
  mkState "hsl(222, 77%, 62%)"
          ["hsl(222, 77%, 62%)"; "hsl(212, 93%, 53%)"; "hsl(221, 72%, 59%)";
           "hsl(233, 85%, 47%)"; "hsl(216, 98%, 56%)"; "hsl(208, 89%, 50%)"]
          0 EmptyString false "text-gray-800".

(** The same sample again and again. *)
Definition stuck (k : Z) (at_ : nat) : Rng := mkRng (fun _ => k) at_.

(** ** The option buttons of the view

    [colorOptions.map((color, index) => <button key={`${color}-${index}`}
    onClick={() => handleGuess(color)} style={{ backgroundColor: color }}
    disabled={isAnimating} />)]. *)

Record OptionButton : Type := mkOptionButton {
  key : string;
  backgroundColor : string;   (* also the colour its click guesses *)
  disabled : bool
}.

Fixpoint buttonsFrom (index : nat) (colors : list string) (animating : bool)
    : list OptionButton :=
  match colors with
  | [] => []
  | color :: rest =>
      mkOptionButton (color ++ "-" ++ number_to_string (Z.of_nat index))
                     color animating
      :: buttonsFrom (S index) rest animating
  end.

Definition optionButtons (s : State) : list OptionButton :=
  buttonsFrom 0 (colorOptions s) (isAnimating s).

(** A click on the button of [color] would score. *)
Definition wins (s : State) (color : string) : bool :=
  match outcome (handleGuess color s) with
  | Correct => true
  | _ => false
  end.

(** ** More vocabulary *)

Definition isGuess (e : Event) : bool :=
  match e with
  | Guess _ => true
  | _ => false
  end.

(** Feedback and buttons agree: while the buttons are disabled the
    message and its colour belong together, otherwise the text is grey. *)
Definition feedbackConsistent (s : State) : Prop :=
  if isAnimating s
  then (gameStatus s = correctMessage /\ textColor s = "text-green-500") \/
       (gameStatus s = wrongMessage /\ textColor s = "text-red-500")
  else textColor s = "text-gray-800".

(** A sample for which [Math.floor(Math.random() * n)] is [v]. *)
Definition sampleFor (n v : Z) : Z := v * two53 / n + 1.

(** A source that plays back the given samples, then zeros. *)
Definition replay (l : list Z) : Rng := mkRng (fun i => nth i l 0) 0.

End ColorGame.

(* ===================================================================== *)
(** * Facts about the JavaScript layer *)
(* ===================================================================== *)

Section JsFacts.

Import Js.

(** A printed integer reads back as the integer. *)
Lemma number_to_string_inj (a b : Z) :
  number_to_string a = number_to_string b -> a = b.
Proof.
  unfold number_to_string. intros E.
  apply DecimalZ.to_int_inj.
  assert (R : forall z, NilZero.int_of_string (NilZero.string_of_int (Z.to_int z))
                        = Some (Z.to_int z)).
  { intros z. apply NilZero.isi; destruct z; simpl; try discriminate;
      intros [= H]; now apply (DecimalPos.Unsigned.to_uint_nonnil p). }
  pose proof (R a) as Ra. rewrite E, R in Ra. now injection Ra.
Qed.

Lemma uint_chars (c : ascii) (d : uint) :
  is_numeric c = false -> occurs c (NilEmpty.string_of_uint d) = false.
Proof.
  intros Hc.
  induction d; cbn [NilEmpty.string_of_uint occurs]; trivial;
    rewrite IHd, orb_false_r; apply Ascii.eqb_neq; intros <-; discriminate.
Qed.

(** A printed integer holds digits and a minus sign, nothing else. *)
Lemma number_chars (c : ascii) (n : Z) :
  is_numeric c = false -> occurs c (number_to_string n) = false.
Proof.
  intros Hc. unfold number_to_string.
  assert (U : forall d, occurs c (NilZero.string_of_uint d) = false).
  { intros d. destruct d; try apply (uint_chars c _ Hc).
    cbn [NilZero.string_of_uint occurs].
    rewrite orb_false_r. apply Ascii.eqb_neq. intros <-. discriminate. }
  destruct (Z.to_int n) as [d|d]; cbn [NilZero.string_of_int occurs].
  - apply U.
  - rewrite U, orb_false_r. apply Ascii.eqb_neq. intros <-. discriminate.
Qed.

(** Two texts that stop at the same delimiter are cut at the same place. *)
Lemma append_delim_inj (c : ascii) (a a' r r' : string) :
  occurs c a = false -> occurs c a' = false ->
  (a ++ String c r = a' ++ String c r')%string -> a = a' /\ r = r'.
Proof.
  revert a'. induction a as [|x a IH]; intros [|x' a'] Ha Ha' E; simpl in *.
  - injection E as ->. now split.
  - injection E as <- _. rewrite Ascii.eqb_refl in Ha'. discriminate.
  - injection E as -> _. rewrite Ascii.eqb_refl in Ha. discriminate.
  - injection E as -> E. apply orb_false_elim in Ha as [_ Ha].
    apply orb_false_elim in Ha' as [_ Ha'].
    destruct (IH a' Ha Ha' E) as [-> ->]. now split.
Qed.

Lemma Math_random_range (g : Rng) : 0 <= fst (Math_random g) < two53.
Proof. unfold Math_random; simpl. apply Z.mod_pos_bound. reflexivity. Qed.

(** [Math.floor(Math.random() * n)] is one of [0 .. n-1]. *)
Lemma floor_random_times_range (n : Z) (g : Rng) :
  0 < n -> 0 <= fst (floor_random_times n g) < n.
Proof.
  intros Hn. unfold floor_random_times, bind, ret.
  pose proof (Math_random_range g) as Hk.
  destruct (Math_random g) as [k g1]; simpl in *.
  assert (0 < two53) by reflexivity.
  split.
  - apply Z.div_pos; nia.
  - apply Z.div_lt_upper_bound; nia.
Qed.

Lemma insert_perm {A} (x : A) (l : list A) (g : Rng) :
  Permutation (fst (insert x l g)) (x :: l).
Proof.
  revert g. induction l as [|y ys IH]; intros g; simpl.
  - apply Permutation_refl.
  - unfold bind. destruct (random_comparator g) as [c g1].
    destruct (c <=? 0); simpl.
    + apply Permutation_refl.
    + specialize (IH g1). destruct (insert x ys g1) as [r g2]; simpl in *.
      rewrite IH. apply perm_swap.
Qed.

(** Whatever the comparator answers, sorting only reorders. *)
Lemma sort_perm {A} (l : list A) (g : Rng) :
  Permutation (fst (sort l g)) l.
Proof.
  revert g. induction l as [|x xs IH]; intros g; simpl.
  - apply Permutation_refl.
  - unfold bind. specialize (IH g). destruct (sort xs g) as [s g1]; simpl in *.
    rewrite insert_perm. now apply perm_skip.
Qed.

Lemma includes_In (x : string) (arr : list string) :
  includes x arr = true <-> In x arr.
Proof.
  unfold includes. rewrite existsb_exists. split.
  - intros [y [Hy E]]. apply String.eqb_eq in E. now subst.
  - intros H. exists x. split; trivial. apply String.eqb_refl.
Qed.

End JsFacts.

(* ===================================================================== *)
(** * Colours and their strings *)
(* ===================================================================== *)

Section Colours.

Import Js ColorGame.

Lemma hsl_shape (h s l : Z) :
  hsl h s l =
  (String "h" (String "s" (String "l" (String "("
    (number_to_string h ++ String "," (String " "
      (number_to_string s ++ String "%" (String "," (String " "
        (number_to_string l ++ String "%" (String ")" EmptyString)))))))))))%string.
Proof. reflexivity. Qed.

(** [hsl] loses nothing: equal strings come from equal components. *)
Lemma hsl_inj (h s l h' s' l' : Z) :
  hsl h s l = hsl h' s' l' -> h = h' /\ s = s' /\ l = l'.
Proof.
  rewrite !hsl_shape. intros E. injection E as E.
  apply append_delim_inj in E as [Eh E]; try (apply number_chars; reflexivity).
  injection E as E.
  apply append_delim_inj in E as [Es E]; try (apply number_chars; reflexivity).
  injection E as E.
  apply append_delim_inj in E as [El _]; try (apply number_chars; reflexivity).
  repeat split; now apply number_to_string_inj.
Qed.

Lemma render_inj (t t' : Z * Z * Z) : render t = render t' -> t = t'.
Proof.
  destruct t as [[h s] l], t' as [[h' s'] l']. simpl. intros E.
  apply hsl_inj in E as (-> & -> & ->). reflexivity.
Qed.

(** [generateRandomColor] on a given hue keeps the hue and draws the
    other two components within their ranges. *)
Lemma generateRandomColor_Some (h : Z) (g : Rng) :
  exists s l, 70 <= s < 100 /\ 45 <= l < 65 /\
    fst (generateRandomColor (Some h) g) = hsl h s l.
Proof.
  unfold generateRandomColor, bind, ret.
  pose proof (floor_random_times_range 30 g eq_refl) as Hs.
  destruct (floor_random_times 30 g) as [s g1]; simpl in Hs.
  pose proof (floor_random_times_range 20 g1 eq_refl) as Hl.
  destruct (floor_random_times 20 g1) as [l g2]; simpl in Hl.
  exists (70 + s), (45 + l). repeat split; try lia.
Qed.

(** Without a hue it draws one in [0, 360). *)
Lemma generateRandomColor_None (g : Rng) :
  wellFormed (fst (generateRandomColor None g)).
Proof.
  unfold generateRandomColor, bind, ret.
  pose proof (floor_random_times_range 360 g eq_refl) as Hh.
  destruct (floor_random_times 360 g) as [h g0]; simpl in Hh.
  pose proof (floor_random_times_range 30 g0 eq_refl) as Hs.
  destruct (floor_random_times 30 g0) as [s g1]; simpl in Hs.
  pose proof (floor_random_times_range 20 g1 eq_refl) as Hl.
  destruct (floor_random_times 20 g1) as [l g2]; simpl in Hl.
  exists (h, 70 + s, 45 + l). split; [reflexivity|]. unfold inRange. lia.
Qed.

Lemma hueVariation_range (g : Rng) : -15 <= fst (hueVariation g) <= 14.
Proof.
  unfold hueVariation, bind, ret.
  pose proof (floor_random_times_range 30 g eq_refl) as Hv.
  destruct (floor_random_times 30 g) as [v g1]; simpl in *. lia.
Qed.

(** On a base hue of the circle, [%] is the mathematical modulo: the
    dividend [baseHue + hueVariation + 360] is positive. *)
Lemma generateSimilarColor_Decoy (b : Z) (g : Rng) :
  0 <= b < 360 -> Decoy b (fst (generateSimilarColor b g)).
Proof.
  intros Hb. unfold generateSimilarColor, bind.
  pose proof (hueVariation_range g) as Hv.
  destruct (hueVariation g) as [v g1]; simpl in Hv.
  destruct (generateRandomColor_Some (rem (b + v + 360) 360) g1)
    as (s & l & Hs & Hl & E).
  exists v. split; [exact Hv|]. exists s, l. repeat split; try lia.
  rewrite E. f_equal. unfold rem.
  rewrite Z.rem_mod_nonneg by lia.
  replace (b + v + 360) with (b + v + 1 * 360) by ring.
  apply Z.mod_add. lia.
Qed.

Lemma Decoy_wellFormed (b : Z) (c : string) : Decoy b c -> wellFormed c.
Proof.
  intros (off & _ & s & l & Hs & Hl & ->).
  exists ((b + off) mod 360, s, l). split; [reflexivity|].
  simpl. pose proof (Z.mod_pos_bound (b + off) 360 eq_refl). lia.
Qed.

End Colours.

(* ===================================================================== *)
(** * Rounds *)
(* ===================================================================== *)

Section Rounds.

Import Js ColorGame.

(** The loop only appends, stops at six options, never repeats an
    option, and everything it appends came from [generateSimilarColor]. *)
Lemma fillOptions_spec (fuel : nat) (b : Z) :
  0 <= b < 360 ->
  forall (options : list string) (g : Rng) (r : list string) (g' : Rng),
    (List.length options <= 6)%nat -> NoDup options ->
    fillOptions fuel b options g = Some (r, g') ->
    exists extra, r = (options ++ extra)%list /\ List.length r = 6%nat /\
                  NoDup r /\ Forall (Decoy b) extra.
Proof.
  intros Hb. induction fuel as [|fuel IH]; intros options g r g' Hlen Hnd;
    cbn [fillOptions]; destruct (Z.ltb_spec (Z.of_nat (List.length options)) 6) as [Hlt|Hge];
    intros E; try discriminate.
  1, 3: injection E as <- <-; exists []; rewrite app_nil_r;
        repeat split; trivial; lia.
  pose proof (generateSimilarColor_Decoy b g Hb) as Hc.
  destruct (generateSimilarColor b g) as [c g1]; simpl in Hc.
  destruct (includes c options) eqn:Hin; simpl in E.
  - now apply IH in E.
  - assert (Hnotin : ~ In c options).
    { intros H. apply includes_In in H. congruence. }
    apply IH in E as (extra & -> & Hl & Hn & Hf).
    + exists (c :: extra). rewrite <- app_assoc in *. simpl in *.
      repeat split; trivial. now constructor.
    + rewrite length_app. simpl. lia.
    + apply NoDup_app; [exact Hnd|repeat constructor; now intros []|].
      intros x Hx [<-|[]]. contradiction.
Qed.

(** What a round is made of. *)
Lemma newRound_spec (fuel : nat) (g : Rng) (r : Round) (g' : Rng) :
  newRound fuel g = Some (r, g') ->
  baseHue r = fst (floor_random_times 360 g) /\
  0 <= baseHue r < 360 /\
  (exists s l, 70 <= s < 100 /\ 45 <= l < 65 /\
               newTargetColor r = hsl (baseHue r) s l) /\
  exists decoys,
    Permutation (shuffledOptions r) (newTargetColor r :: decoys) /\
    List.length decoys = 5%nat /\
    NoDup (newTargetColor r :: decoys) /\
    Forall (Decoy (baseHue r)) decoys.
Proof.
  unfold newRound.
  pose proof (floor_random_times_range 360 g eq_refl) as Hb.
  destruct (floor_random_times 360 g) as [b g1]; simpl in Hb.
  pose proof (generateRandomColor_Some b g1) as Ht.
  destruct (generateRandomColor (Some b) g1) as [t g2]; simpl in Ht.
  destruct (fillOptions fuel b [t] g2) as [[options g3]|] eqn:F; [|discriminate].
  pose proof (sort_perm options g3) as Hp.
  destruct (sort options g3) as [shuffled g4]; simpl in Hp.
  intros [= <- <-]; simpl.
  apply fillOptions_spec in F as (extra & -> & Hl & Hn & Hf); trivial;
    [|simpl; lia|repeat constructor; now intros []].
  repeat split; trivial; try lia.
  exists extra. simpl in *. repeat split; trivial. lia.
Qed.

(** A valid round, for the state that [resetGame] leaves. *)
Lemma resetGame_spec (fuel : nat) (s : State) (g : Rng) (s' : State) (g' : Rng) :
  resetGame fuel s g = Some (s', g') ->
  exists r, newRound fuel g = Some (r, g') /\
    targetColor s' = newTargetColor r /\
    colorOptions s' = shuffledOptions r /\
    score s' = score s /\ isAnimating s' = false.
Proof.
  unfold resetGame. destruct (newRound fuel g) as [[r g1]|]; [|discriminate].
  intros [= <- <-]. exists r. repeat split.
Qed.

Lemma count_occ_once (l : list string) (x : string) :
  NoDup l -> In x l -> count_occ string_dec l x = 1%nat.
Proof.
  intros Hn Hi. pose proof (proj1 (NoDup_count_occ string_dec l) Hn x).
  apply (count_occ_In string_dec) in Hi. lia.
Qed.

Lemma round_valid (r : Round) (decoys : list string) :
  Permutation (shuffledOptions r) (newTargetColor r :: decoys) ->
  List.length decoys = 5%nat ->
  NoDup (newTargetColor r :: decoys) ->
  List.length (shuffledOptions r) = 6%nat /\
  count_occ string_dec (shuffledOptions r) (newTargetColor r) = 1%nat /\
  NoDup (shuffledOptions r).
Proof.
  intros Hp Hl Hn.
  assert (Hn' : NoDup (shuffledOptions r))
    by (eapply Permutation_NoDup; [symmetry; exact Hp|exact Hn]).
  repeat split; trivial.
  - rewrite (Permutation_length Hp). simpl. lia.
  - apply count_occ_once; trivial.
    eapply Permutation_in; [symmetry; exact Hp|now left].
Qed.

(** The options other than the target are the decoys. *)
Lemma round_decoys (r : Round) (decoys : list string) (P : string -> Prop) :
  Permutation (shuffledOptions r) (newTargetColor r :: decoys) ->
  Forall P decoys ->
  Forall (fun c => c <> newTargetColor r -> P c) (shuffledOptions r).
Proof.
  intros Hp Hf. apply Forall_forall. intros c Hc Hne.
  apply (Permutation_in _ Hp) in Hc as [E|Hc]; [congruence|].
  rewrite Forall_forall in Hf. now apply Hf.
Qed.

End Rounds.

(* ===================================================================== *)
(** * When the loop of [resetGame] finishes *)
(* ===================================================================== *)

Section Termination.

Import Js ColorGame.

Lemma nodup_length_incl (l l' : list string) :
  incl l l' ->
  (List.length (nodup string_dec l) <= List.length (nodup string_dec l'))%nat.
Proof.
  intros H. apply NoDup_incl_length; [apply NoDup_nodup|].
  intros x Hx. apply nodup_In. apply H. now apply nodup_In in Hx.
Qed.

(** The loop finishes as soon as the options it holds and the colours it
    is about to draw count six different strings. *)
Lemma fillOptions_total (fuel : nat) (b : Z) :
  forall (options : list string) (g : Rng),
    NoDup options ->
    (6 <= List.length (nodup string_dec (options ++ upcoming fuel b g)))%nat ->
    exists r g', fillOptions fuel b options g = Some (r, g').
Proof.
  induction fuel as [|fuel IH]; intros options g Hnd H;
    cbn [fillOptions upcoming] in *;
    destruct (Z.ltb_spec (Z.of_nat (List.length options)) 6) as [Hlt|Hge];
    try (now eexists; eexists).
  - rewrite app_nil_r, (nodup_fixed_point string_dec Hnd) in H. lia.
  - destruct (generateSimilarColor b g) as [c g1].
    destruct (includes c options) eqn:Hin; simpl.
    + apply IH; trivial. etransitivity; [exact H|].
      apply nodup_length_incl. intros x Hx.
      apply in_app_or in Hx as [Hx|[<-|Hx]]; apply in_or_app; auto.
      left. now apply includes_In.
    + apply IH.
      * apply NoDup_app; [exact Hnd|repeat constructor; now intros []|].
        intros x Hx [<-|[]]. apply includes_In in Hx. congruence.
      * now rewrite <- app_assoc.
Qed.

(** A varied source gives a round. *)
Lemma newRound_total (fuel : nat) (g : Rng) :
  variedEnough fuel g = true -> exists r g', newRound fuel g = Some (r, g').
Proof.
  unfold variedEnough, newRound.
  destruct (floor_random_times 360 g) as [b g1].
  destruct (generateRandomColor (Some b) g1) as [t g2].
  intros H. apply Nat.leb_le in H.
  destruct (fillOptions_total fuel b [t] g2) as (options & g3 & ->).
  - repeat constructor. now intros [].
  - exact H.
  - destruct (sort options g3) as [shuffled g4]. now eexists; eexists.
Qed.

Lemma resetGame_total (fuel : nat) (s : State) (g : Rng) :
  variedEnough fuel g = true -> exists s' g', resetGame fuel s g = Some (s', g').
Proof.
  intros H. unfold resetGame.
  destruct (newRound_total fuel g H) as (r & g' & ->). now eexists; eexists.
Qed.

(** Conversely the loop only ever holds colours it was given or drew. *)
Lemma fillOptions_draws (fuel : nat) (b : Z) :
  forall (options : list string) (g : Rng) (r : list string) (g' : Rng),
    fillOptions fuel b options g = Some (r, g') ->
    incl r (options ++ upcoming fuel b g).
Proof.
  induction fuel as [|fuel IH]; intros options g r g';
    cbn [fillOptions upcoming];
    destruct (Z.of_nat (List.length options) <? 6); try discriminate;
    try (intros [= <- <-]; apply incl_appl, incl_refl).
  destruct (generateSimilarColor b g) as [c g1].
  destruct (includes c options); simpl; intros E; apply IH in E;
    intros x Hx; apply E in Hx.
  - apply in_app_or in Hx as [Hx|Hx]; apply in_or_app; [now left|].
    right. now right.
  - rewrite <- app_assoc in Hx. exact Hx.
Qed.

(** So [variedEnough] is exactly the condition under which a round is
    produced within the fuel. *)
Lemma newRound_variedEnough (fuel : nat) (g : Rng) (r : Round) (g' : Rng) :
  newRound fuel g = Some (r, g') -> variedEnough fuel g = true.
Proof.
  unfold variedEnough, newRound.
  pose proof (floor_random_times_range 360 g eq_refl) as Hb.
  destruct (floor_random_times 360 g) as [b g1]; simpl in Hb.
  destruct (generateRandomColor (Some b) g1) as [t g2].
  destruct (fillOptions fuel b [t] g2) as [[options g3]|] eqn:F; [|discriminate].
  intros _. apply Nat.leb_le.
  pose proof (fillOptions_draws _ _ _ _ _ _ F) as Hi.
  apply fillOptions_spec in F as (extra & E & Hl & Hn & _); trivial;
    [|simpl; lia|repeat constructor; now intros []].
  rewrite <- Hl. apply NoDup_incl_length; [exact Hn|].
  intros x Hx. apply nodup_In. now apply Hi.
Qed.

(** More fuel never hurts. *)
Lemma fillOptions_more_fuel (fuel : nat) (b : Z) :
  forall (options : list string) (g : Rng) (res : list string * Rng),
    fillOptions fuel b options g = Some res ->
    fillOptions (S fuel) b options g = Some res.
Proof.
  induction fuel as [|fuel IH]; intros options g res.
  - cbn [fillOptions].
    destruct (Z.of_nat (List.length options) <? 6); [discriminate|trivial].
  - intros H. change (fillOptions (S (S fuel)) b options g) with
      (if Z.of_nat (List.length options) <? 6
       then let (newColor, g1) := generateSimilarColor b g in
            if negb (includes newColor options)
            then fillOptions (S fuel) b (options ++ [newColor])%list g1
            else fillOptions (S fuel) b options g1
       else Some (options, g)).
    change (fillOptions (S fuel) b options g) with
      (if Z.of_nat (List.length options) <? 6
       then let (newColor, g1) := generateSimilarColor b g in
            if negb (includes newColor options)
            then fillOptions fuel b (options ++ [newColor])%list g1
            else fillOptions fuel b options g1
       else Some (options, g)) in H.
    destruct (Z.of_nat (List.length options) <? 6); trivial.
    destruct (generateSimilarColor b g) as [c g1].
    destruct (negb (includes c options)); now apply IH.
Qed.

(** A source that repeats one sample gives the same similar colour at
    every turn: the loop holds two options for ever. *)
Lemma stuck_draw (at_ : nat) :
  generateSimilarColor 0 (stuck 0 at_) = ("hsl(345, 70%, 45%)", stuck 0 (3 + at_)).
Proof. reflexivity. Qed.

Lemma fillOptions_stuck (fuel : nat) :
  forall (at_ : nat) (options : list string),
    options = ["hsl(0, 70%, 45%)"] \/
    options = ["hsl(0, 70%, 45%)"; "hsl(345, 70%, 45%)"] ->
    fillOptions fuel 0 options (stuck 0 at_) = None.
Proof.
  induction fuel as [|fuel IH]; intros at_ options H.
  - destruct H as [-> | ->]; reflexivity.
  - cbn [fillOptions]. rewrite stuck_draw.
    destruct H as [-> | ->].
    + change (fillOptions fuel 0 ["hsl(0, 70%, 45%)"; "hsl(345, 70%, 45%)"]
                (stuck 0 (3 + at_)) = None). apply IH. now right.
    + change (fillOptions fuel 0 ["hsl(0, 70%, 45%)"; "hsl(345, 70%, 45%)"]
                (stuck 0 (3 + at_)) = None). apply IH. now right.
Qed.

(** No amount of fuel gives a round from such a source. *)
Lemma newRound_stuck (fuel : nat) : newRound fuel (stuck 0 0) = None.
Proof.
  unfold newRound.
  change (floor_random_times 360 (stuck 0 0)) with (0, stuck 0 1).
  cbv beta iota.
  change (generateRandomColor (Some 0) (stuck 0 1))
    with ("hsl(0, 70%, 45%)", stuck 0 3).
  cbv beta iota. rewrite fillOptions_stuck; [reflexivity|now left].
Qed.

End Termination.

(* ===================================================================== *)
(** * Properties of generated rounds *)
(* ===================================================================== *)

Section GeneratedRounds.

Import Js ColorGame.

Example firstRound_mounted :
  option_map ui (run 5 [Mount] (start spread)) = Some firstRound.
Proof. vm_compute. reflexivity. Qed.

Lemma wellFormed_triples (l : list string) :
  Forall wellFormed l ->
  exists triples, l = map render triples /\ Forall inRange triples.
Proof.
  induction 1 as [|c l (t & -> & Ht) _ (ts & -> & Hts)].
  - exists []. split; [reflexivity|constructor].
  - exists (t :: ts). split; [reflexivity|now constructor].
Qed.

Lemma newRound_wellFormed (fuel : nat) (g : Rng) (r : Round) (g' : Rng) :
  newRound fuel g = Some (r, g') ->
  wellFormed (newTargetColor r) /\ Forall wellFormed (shuffledOptions r).
Proof.
  intros H. apply newRound_spec in H
    as (_ & Hb & (s & l & Hs & Hl & Ht) & decoys & Hp & _ & _ & Hd).
  assert (Wt : wellFormed (newTargetColor r)).
  { exists (baseHue r, s, l). split; [exact Ht|]. unfold inRange. lia. }
  split; [exact Wt|].
  apply Forall_forall. intros c Hc.
  apply (Permutation_in _ Hp) in Hc as [<-|Hc]; [exact Wt|].
  rewrite Forall_forall in Hd. eapply Decoy_wellFormed. now apply Hd.
Qed.

Lemma newRound_valid (fuel : nat) (g : Rng) (r : Round) (g' : Rng) :
  newRound fuel g = Some (r, g') ->
  List.length (shuffledOptions r) = 6%nat /\
  count_occ string_dec (shuffledOptions r) (newTargetColor r) = 1%nat /\
  NoDup (shuffledOptions r).
Proof.
  intros H. apply newRound_spec in H as (_ & _ & _ & decoys & Hp & Hl & Hn & _).
  now apply (round_valid r decoys).
Qed.

Lemma resetGame_valid (fuel : nat) (s : State) (g : Rng) (s' : State) (g' : Rng) :
  resetGame fuel s g = Some (s', g') ->
  validRound s' /\ wellFormed (targetColor s') /\
  Forall wellFormed (colorOptions s').
Proof.
  intros H. unfold validRound.
  apply resetGame_spec in H as (r & Hr & -> & -> & _).
  pose proof (newRound_valid _ _ _ _ Hr).
  pose proof (newRound_wellFormed _ _ _ _ Hr). tauto.
Qed.

Lemma startNewGame_score (fuel : nat) (s : State) (g : Rng) (s' : State) (g' : Rng) :
  startNewGame fuel s g = Some (s', g') -> score s' = 0.
Proof.
  unfold startNewGame. intros H.
  now apply resetGame_spec in H as (_ & _ & _ & _ & -> & _).
Qed.

(** A hue moved by at most 15 either way stays within 15 degrees. *)
Lemma hueDistance_offset (b off : Z) :
  -15 <= off <= 15 -> hueDistance ((b + off) mod 360) b <= 15.
Proof.
  intros Ho. unfold hueDistance.
  rewrite Zminus_mod_idemp_l, Zminus_mod_idemp_r.
  replace (b + off - b) with off by ring.
  replace (b - (b + off)) with (- off) by ring.
  destruct (Z_le_gt_dec 0 off).
  - rewrite (Z.mod_small off) by lia. lia.
  - rewrite (Z.mod_small (- off)) by lia. lia.
Qed.

(** The offset +15 is out of reach: no decoy has the hue fifteen
    degrees above the base. *)
Lemma Decoy_never_plus15 (b : Z) (c : string) (s l : Z) :
  Decoy b c -> c <> hsl ((b + 15) mod 360) s l.
Proof.
  intros (off & Ho & s0 & l0 & _ & _ & ->) E.
  apply hsl_inj in E as (E & _ & _).
  pose proof (Z.div_mod (b + off) 360). pose proof (Z.div_mod (b + 15) 360).
  lia.
Qed.

Example hueVariation_lowest : fst (hueVariation (stuck 0 0)) = -15.
Proof. reflexivity. Qed.

Example hueVariation_highest : fst (hueVariation (stuck (two53 - 1) 0)) = 14.
Proof. reflexivity. Qed.

(** C1. Every round that [resetGame] or [startNewGame] produces shows
    six candidates, holds the target exactly once among them, and holds
    no candidate twice; the candidates are the strings of six different
    hue/saturation/lightness triples. *)
Theorem C1_round_valid (fuel : nat) (s : State) (g : Rng) (s' : State) (g' : Rng) :
  resetGame fuel s g = Some (s', g') \/ startNewGame fuel s g = Some (s', g') ->
  List.length (colorOptions s') = 6%nat /\
  count_occ string_dec (colorOptions s') (targetColor s') = 1%nat /\
  NoDup (colorOptions s') /\
  exists triples, colorOptions s' = map render triples /\ NoDup triples.
Proof.
  intros H.
  assert (V : validRound s' /\ wellFormed (targetColor s') /\
              Forall wellFormed (colorOptions s')).
  { destruct H as [H|H]; [|unfold startNewGame in H];
      now apply resetGame_valid in H. }
  destruct V as ((Hl & Hc & Hn) & _ & Hw).
  repeat split; trivial.
  apply wellFormed_triples in Hw as (ts & E & _).
  exists ts. split; [exact E|]. rewrite E in Hn. now apply NoDup_map_inv in Hn.
Qed.

Lemma C1_round_valid_witness :
  exists s' g',
    (resetGame 5 initialState spread = Some (s', g') \/
     startNewGame 5 initialState spread = Some (s', g')) /\
    List.length (colorOptions s') = 6%nat /\
    count_occ string_dec (colorOptions s') (targetColor s') = 1%nat /\
    NoDup (colorOptions s') /\
    exists triples, colorOptions s' = map render triples /\ NoDup triples.
Proof.
  eexists. eexists.
  assert (E : resetGame 5 initialState spread
              = Some (firstRound, mkRng (samples spread) 26)) by (vm_compute; reflexivity).
  split; [left; exact E|].
  apply (C1_round_valid 5 initialState spread firstRound
           (mkRng (samples spread) 26)).
  left. exact E.
Defined.

(** C6. In a round generated from the base hue [b], the target has the
    hue [b] itself, and every decoy has the hue [(b + off) mod 360] for
    an offset [off] between -15 and 15, which is within 15 degrees of [b]
    around the circle. *)
Theorem C6_hues_near_base (fuel : nat) (g : Rng) (r : Round) (g' : Rng) :
  newRound fuel g = Some (r, g') ->
  baseHue r = fst (floor_random_times 360 g) /\
  (exists s l, newTargetColor r = hsl (baseHue r) s l) /\
  Forall (fun c => c <> newTargetColor r ->
            exists off s l,
              -15 <= off <= 15 /\
              c = hsl ((baseHue r + off) mod 360) s l /\
              hueDistance ((baseHue r + off) mod 360) (baseHue r) <= 15)
         (shuffledOptions r).
Proof.
  intros H. apply newRound_spec in H
    as (Hb & _ & (s & l & _ & _ & Ht) & decoys & Hp & _ & _ & Hd).
  split; [exact Hb|]. split; [now exists s, l|].
  apply (round_decoys r decoys); [exact Hp|].
  eapply Forall_impl; [|exact Hd].
  intros c (off & Ho & s0 & l0 & _ & _ & ->).
  exists off, s0, l0. repeat split; try lia.
  apply hueDistance_offset. lia.
Qed.

Lemma C6_hues_near_base_witness :
  exists r g',
    newRound 5 spread = Some (r, g') /\
    baseHue r = fst (floor_random_times 360 spread) /\
    (exists s l, newTargetColor r = hsl (baseHue r) s l) /\
    Forall (fun c => c <> newTargetColor r ->
              exists off s l,
                -15 <= off <= 15 /\
                c = hsl ((baseHue r + off) mod 360) s l /\
                hueDistance ((baseHue r + off) mod 360) (baseHue r) <= 15)
           (shuffledOptions r).
Proof.
  eexists. eexists.
  assert (E : newRound 5 spread
              = Some (mkRound 222 (targetColor firstRound) (colorOptions firstRound),
                      mkRng (samples spread) 26)) by (vm_compute; reflexivity).
  split; [exact E|].
  exact (C6_hues_near_base 5 spread _ _ E).
Defined.

(** C10. The hue offset of [generateSimilarColor] is an integer from -15
    to 14, so no decoy of a round has the hue [(baseHue + 15) mod 360]. *)
Theorem C10_offset_never_15 (fuel : nat) (g : Rng) (r : Round) (g' : Rng) :
  newRound fuel g = Some (r, g') ->
  (forall g0, -15 <= fst (hueVariation g0) <= 14) /\
  Forall (fun c => c <> newTargetColor r ->
            forall s l, c <> hsl ((baseHue r + 15) mod 360) s l)
         (shuffledOptions r).
Proof.
  intros H. split; [exact hueVariation_range|].
  apply newRound_spec in H as (_ & _ & _ & decoys & Hp & _ & _ & Hd).
  apply (round_decoys r decoys); [exact Hp|].
  eapply Forall_impl; [|exact Hd].
  intros c Hc s l. now apply Decoy_never_plus15.
Qed.

Lemma C10_offset_never_15_witness :
  exists r g',
    newRound 5 spread = Some (r, g') /\
    (forall g0, -15 <= fst (hueVariation g0) <= 14) /\
    Forall (fun c => c <> newTargetColor r ->
              forall s l, c <> hsl ((baseHue r + 15) mod 360) s l)
           (shuffledOptions r).
Proof.
  eexists. eexists.
  assert (E : newRound 5 spread
              = Some (mkRound 222 (targetColor firstRound) (colorOptions firstRound),
                      mkRng (samples spread) 26)) by (vm_compute; reflexivity).
  split; [exact E|].
  exact (C10_offset_never_15 5 spread _ _ E).
Defined.

(** C8. Whatever the score was, [startNewGame] on a source varied enough
    for the loop to finish returns a state with score 0 and a fresh
    valid round: six candidates, the target once, no candidate twice. *)
Theorem C8_startNewGame (fuel : nat) (s : State) (g : Rng) :
  variedEnough fuel g = true ->
  exists s' g',
    startNewGame fuel s g = Some (s', g') /\
    score s' = 0 /\
    List.length (colorOptions s') = 6%nat /\
    count_occ string_dec (colorOptions s') (targetColor s') = 1%nat /\
    NoDup (colorOptions s').
Proof.
  intros H. unfold startNewGame.
  destruct (resetGame_total fuel (setScore (fun _ => 0) s) g H) as (s' & g' & E).
  exists s', g'. split; [exact E|].
  split; [exact (startNewGame_score fuel s g s' g' E)|].
  now apply resetGame_valid in E as (V & _).
Qed.

Lemma C8_startNewGame_witness :
  variedEnough 5 spread = true /\
  exists s' g',
    startNewGame 5 (setScore (fun _ => 7) firstRound) spread = Some (s', g') /\
    score s' = 0 /\
    List.length (colorOptions s') = 6%nat /\
    count_occ string_dec (colorOptions s') (targetColor s') = 1%nat /\
    NoDup (colorOptions s').
Proof.
  assert (V : variedEnough 5 spread = true) by (vm_compute; reflexivity).
  split; [exact V|].
  exact (C8_startNewGame 5 (setScore (fun _ => 7) firstRound) spread V).
Defined.

End GeneratedRounds.

(* ===================================================================== *)
(** * Guesses *)
(* ===================================================================== *)

Section Guesses.

Import Js ColorGame.

(** The guard at the top of [handleGuess]. *)
Lemma handleGuess_animating (color : string) (s : State) :
  isAnimating s = true -> handleGuess color s = mkGuessed AlreadyResolved s [].
Proof. unfold handleGuess. now intros ->. Qed.

(** No branch of [handleGuess] reports an invalid colour. *)
Lemma handleGuess_never_invalid (color : string) (s : State) :
  outcome (handleGuess color s) <> InvalidColor.
Proof.
  unfold handleGuess. destruct (isAnimating s); [discriminate|].
  destruct (color =? targetColor s)%string; discriminate.
Qed.

Lemma handleGuess_wrong (color : string) (s : State) :
  isAnimating s = false -> color <> targetColor s ->
  handleGuess color s =
  mkGuessed Incorrect
    (setTextColor "text-red-500" (setGameStatus wrongMessage (setIsAnimating true s)))
    [AfterWrong].
Proof.
  intros Ha Hne. unfold handleGuess. rewrite Ha.
  apply String.eqb_neq in Hne. now rewrite Hne.
Qed.

Lemma out_of_range_hue_malformed : ~ wellFormed "hsl(400, 80%, 50%)".
Proof.
  intros ([[h s] l] & E & Hh & _).
  change "hsl(400, 80%, 50%)" with (hsl 400 80 50) in E.
  apply hsl_inj in E as (<- & _). lia.
Qed.

(** C3. While input is enabled, guessing the target takes the correct
    branch and adds exactly 1 to the score. *)
Theorem C3_correct_guess (s : State) :
  isAnimating s = false ->
  outcome (handleGuess (targetColor s) s) = Correct /\
  score (after (handleGuess (targetColor s) s)) = score s + 1.
Proof.
  intros Ha. unfold handleGuess. rewrite Ha, String.eqb_refl. now split.
Qed.

Lemma C3_correct_guess_witness :
  isAnimating firstRound = false /\
  outcome (handleGuess (targetColor firstRound) firstRound) = Correct /\
  score (after (handleGuess (targetColor firstRound) firstRound))
  = score firstRound + 1.
Proof.
  split; [reflexivity|]. apply (C3_correct_guess firstRound). reflexivity.
Defined.

(** C5. While input is enabled, a guess other than the target takes the
    wrong branch: the score, the target and the options stay as they
    are, and once the timer it sets has fired the same round takes
    guesses again. *)
Theorem C5_wrong_guess (s : State) (color : string) :
  isAnimating s = false -> color <> targetColor s ->
  outcome (handleGuess color s) = Incorrect /\
  score (after (handleGuess color s)) = score s /\
  targetColor (after (handleGuess color s)) = targetColor s /\
  colorOptions (after (handleGuess color s)) = colorOptions s /\
  scheduled (handleGuess color s) = [AfterWrong] /\
  forall fuel g,
    exists s2,
      fire fuel AfterWrong (after (handleGuess color s)) g = Some (s2, g) /\
      isAnimating s2 = false /\ score s2 = score s /\
      targetColor s2 = targetColor s /\ colorOptions s2 = colorOptions s.
Proof.
  intros Ha Hne. rewrite (handleGuess_wrong color s Ha Hne). simpl.
  repeat split. intros fuel g. eexists. repeat split.
Qed.

Lemma C5_wrong_guess_witness :
  (isAnimating firstRound = false /\
   "hsl(212, 93%, 53%)" <> targetColor firstRound) /\
  outcome (handleGuess "hsl(212, 93%, 53%)" firstRound) = Incorrect /\
  score (after (handleGuess "hsl(212, 93%, 53%)" firstRound)) = score firstRound /\
  targetColor (after (handleGuess "hsl(212, 93%, 53%)" firstRound))
  = targetColor firstRound /\
  colorOptions (after (handleGuess "hsl(212, 93%, 53%)" firstRound))
  = colorOptions firstRound /\
  scheduled (handleGuess "hsl(212, 93%, 53%)" firstRound) = [AfterWrong] /\
  forall fuel g,
    exists s2,
      fire fuel AfterWrong (after (handleGuess "hsl(212, 93%, 53%)" firstRound)) g
      = Some (s2, g) /\
      isAnimating s2 = false /\ score s2 = score firstRound /\
      targetColor s2 = targetColor firstRound /\
      colorOptions s2 = colorOptions firstRound.
Proof.
  assert (N : "hsl(212, 93%, 53%)" <> targetColor firstRound) by discriminate.
  split; [split; [reflexivity|exact N]|].
  exact (C5_wrong_guess firstRound "hsl(212, 93%, 53%)" eq_refl N).
Defined.

(** C2, as the specification has it, fails: a colour with the hue 400 is
    malformed, yet on an open round [handleGuess] compares it with the
    target and handles it as a wrong guess. *)
Lemma C2_malformed_not_rejected :
  ~ wellFormed "hsl(400, 80%, 50%)" /\
  isAnimating firstRound = false /\
  outcome (handleGuess "hsl(400, 80%, 50%)" firstRound) = Incorrect /\
  outcome (handleGuess "hsl(400, 80%, 50%)" firstRound) <> InvalidColor /\
  gameStatus (after (handleGuess "hsl(400, 80%, 50%)" firstRound)) = wrongMessage /\
  isAnimating (after (handleGuess "hsl(400, 80%, 50%)" firstRound)) = true.
Proof.
  split; [exact out_of_range_hue_malformed|].
  repeat split; try reflexivity. discriminate.
Qed.

(** C2, amended. [handleGuess] validates nothing.  While input is
    enabled and the target is a generated colour, a malformed colour is
    compared like any other, differs from the target and takes the wrong
    branch: wrong-guess message, score unchanged, input disabled until
    the timer fires.  No guess at all is answered with [InvalidColor]. *)
Theorem C2_malformed_is_wrong_guess (s : State) (color : string) :
  isAnimating s = false -> wellFormed (targetColor s) -> ~ wellFormed color ->
  outcome (handleGuess color s) = Incorrect /\
  gameStatus (after (handleGuess color s)) = wrongMessage /\
  score (after (handleGuess color s)) = score s /\
  scheduled (handleGuess color s) = [AfterWrong] /\
  forall color' s', outcome (handleGuess color' s') <> InvalidColor.
Proof.
  intros Ha Ht Hc.
  assert (Hne : color <> targetColor s) by (intros ->; contradiction).
  rewrite (handleGuess_wrong color s Ha Hne). simpl.
  repeat split. exact handleGuess_never_invalid.
Qed.

Lemma firstRound_target_wellFormed : wellFormed (targetColor firstRound).
Proof. exists (222, 77, 62). split; [reflexivity|]. unfold inRange. lia. Qed.

Lemma C2_malformed_is_wrong_guess_witness :
  (isAnimating firstRound = false /\ wellFormed (targetColor firstRound) /\
   ~ wellFormed "hsl(400, 80%, 50%)") /\
  outcome (handleGuess "hsl(400, 80%, 50%)" firstRound) = Incorrect /\
  gameStatus (after (handleGuess "hsl(400, 80%, 50%)" firstRound)) = wrongMessage /\
  score (after (handleGuess "hsl(400, 80%, 50%)" firstRound)) = score firstRound /\
  scheduled (handleGuess "hsl(400, 80%, 50%)" firstRound) = [AfterWrong] /\
  forall color' s', outcome (handleGuess color' s') <> InvalidColor.
Proof.
  split.
  - split; [reflexivity|].
    split; [exact firstRound_target_wellFormed|exact out_of_range_hue_malformed].
  - exact (C2_malformed_is_wrong_guess firstRound "hsl(400, 80%, 50%)" eq_refl
             firstRound_target_wellFormed out_of_range_hue_malformed).
Defined.

(** C9. Colours are the strings [hsl(h, s%, l%)] of integer components
    and a guess is compared with the target by string equality; two such
    strings are equal exactly when the three components are, so the
    comparison of [handleGuess] is the comparison of triples. *)
Theorem C9_string_equality_is_triple_equality
    (h s l h' s' l' : Z) (st : State) :
  (hsl h s l = hsl h' s' l' <-> (h, s, l) = (h', s', l')) /\
  ((hsl h s l =? hsl h' s' l')%string = true <-> (h, s, l) = (h', s', l')) /\
  (outcome (handleGuess (hsl h s l)
              (setIsAnimating false (setTargetColor (hsl h' s' l') st))) = Correct
   <-> (h, s, l) = (h', s', l')).
Proof.
  assert (I : hsl h s l = hsl h' s' l' <-> (h, s, l) = (h', s', l')).
  { split.
    - intros E. apply hsl_inj in E as (-> & -> & ->). reflexivity.
    - intros [= -> -> ->]. reflexivity. }
  split; [exact I|]. split.
  - rewrite String.eqb_eq. exact I.
  - rewrite <- I. unfold handleGuess.
    cbn [isAnimating setIsAnimating setTargetColor targetColor].
    destruct (String.eqb_spec (hsl h s l) (hsl h' s' l')) as [E|E];
      cbn [outcome]; split; trivial; try discriminate. contradiction.
Qed.

End Guesses.

(* ===================================================================== *)
(** * The component at play *)
(* ===================================================================== *)

Section Play.

Import Js ColorGame.

Lemma handleGuess_keeps_round (color : string) (s : State) :
  targetColor (after (handleGuess color s)) = targetColor s /\
  colorOptions (after (handleGuess color s)) = colorOptions s.
Proof.
  unfold handleGuess. destruct (isAnimating s); [now split|].
  destruct (color =? targetColor s)%string; now split.
Qed.

Lemma fire_coloursWellFormed (fuel : nat) (t : Timer) (G : Game) (s : State) (g : Rng) :
  coloursWellFormed G -> fire fuel t (ui G) (rng G) = Some (s, g) ->
  forall rest, coloursWellFormed (mkGame s rest g).
Proof.
  intros HG H rest. destruct t; simpl in H.
  - apply resetGame_valid in H as (_ & Ht & Ho). split; [exact Ho|now right].
  - injection H as <- <-. exact HG.
Qed.

Lemma step_coloursWellFormed (fuel : nat) (e : Event) (G G' : Game) :
  coloursWellFormed G -> step fuel e G = Some G' -> coloursWellFormed G'.
Proof.
  intros HG. destruct e; simpl.
  - destruct (resetGame fuel (ui G) (rng G)) as [[s g]|] eqn:E; [|discriminate].
    intros [= <-]. apply resetGame_valid in E as (_ & Ht & Ho).
    split; [exact Ho|now right].
  - intros [= <-]. unfold coloursWellFormed. simpl.
    destruct (handleGuess_keeps_round color (ui G)) as [-> ->]. exact HG.
  - destruct (startNewGame fuel (ui G) (rng G)) as [[s g]|] eqn:E; [|discriminate].
    intros [= <-]. unfold startNewGame in E.
    apply resetGame_valid in E as (_ & Ht & Ho). split; [exact Ho|now right].
  - destruct (pending G) as [|t rest]; [now intros [= <-]|].
    destruct (fire fuel t (ui G) (rng G)) as [[s g]|] eqn:E; [|discriminate].
    intros [= <-]. now apply (fire_coloursWellFormed fuel t G).
Qed.

Lemma run_coloursWellFormed (fuel : nat) (es : list Event) :
  forall G G', coloursWellFormed G -> run fuel es G = Some G' -> coloursWellFormed G'.
Proof.
  induction es as [|e es IH]; intros G G' HG; simpl.
  - now intros [= <-].
  - destruct (step fuel e G) as [G1|] eqn:E; [|discriminate].
    apply IH. now apply (step_coloursWellFormed fuel e G).
Qed.

(** C7. Every colour the component ever holds, target or option, in any
    round of any play, has its hue in [0,360), its saturation in
    [70,100) and its lightness in [45,65); so has a colour that
    [generateRandomColor] draws without a base hue. *)
Theorem C7_colours_in_range (fuel : nat) (es : list Event) (g : Rng) (G : Game) :
  run fuel es (start g) = Some G ->
  Forall wellFormed (colorOptions (ui G)) /\
  (targetColor (ui G) = EmptyString \/ wellFormed (targetColor (ui G))) /\
  (forall g0, wellFormed (fst (generateRandomColor None g0))).
Proof.
  intros H.
  assert (W : coloursWellFormed G).
  { apply (run_coloursWellFormed fuel es (start g)); [|exact H].
    split; [constructor|now left]. }
  destruct W as [Wo Wt]. repeat split; trivial.
  exact generateRandomColor_None.
Qed.

Lemma C7_colours_in_range_witness :
  exists G,
    run 5 [Mount; Guess "hsl(212, 93%, 53%)"; NewGame] (start spread) = Some G /\
    Forall wellFormed (colorOptions (ui G)) /\
    (targetColor (ui G) = EmptyString \/ wellFormed (targetColor (ui G))) /\
    (forall g0, wellFormed (fst (generateRandomColor None g0))).
Proof.
  destruct (run 5 [Mount; Guess "hsl(212, 93%, 53%)"; NewGame] (start spread))
    as [G|] eqn:E.
  - exists G. split; [reflexivity|].
    exact (C7_colours_in_range 5 _ spread G E).
  - vm_compute in E. discriminate E.
Defined.

(** Guesses made while the buttons are disabled change nothing. *)
Lemma guesses_while_animating (fuel : nat) (colors : list string) (G : Game) :
  isAnimating (ui G) = true -> run fuel (map Guess colors) G = Some G.
Proof.
  intros Ha. induction colors as [|c cs IH]; simpl; trivial.
  rewrite (handleGuess_animating c (ui G) Ha). simpl. rewrite app_nil_r.
  destruct G; simpl in *. exact IH.
Qed.

(** Without the New Game button, buttons and timers stay in step. *)
Lemma step_inStep (fuel : nat) (e : Event) (G G' : Game) :
  e <> NewGame -> e <> Mount ->
  inStep G -> step fuel e G = Some G' -> inStep G'.
Proof.
  intros Hn Hm HG. destruct e; try contradiction; simpl.
  - intros [= <-]. unfold inStep, handleGuess. simpl.
    destruct HG as [[Ha Hp]|[Ha [t Hp]]]; rewrite Ha, Hp.
    + right. destruct (color =? targetColor (ui G))%string; simpl; eauto.
    + right. simpl. eauto.
  - destruct HG as [[Ha Hp]|[Ha [t Hp]]]; rewrite Hp.
    + intros [= <-]. left. now split.
    + destruct (fire fuel t (ui G) (rng G)) as [[s g]|] eqn:E; [|discriminate].
      intros [= <-]. left. split; [|reflexivity]. simpl.
      destruct t; simpl in E.
      * now apply resetGame_spec in E as (_ & _ & _ & _ & _ & ->).
      * now injection E as <- _.
Qed.

Lemma run_inStep (fuel : nat) (es : list Event) :
  Forall (fun e => e <> NewGame /\ e <> Mount) es ->
  forall G G', inStep G -> run fuel es G = Some G' -> inStep G'.
Proof.
  induction 1 as [|e es [Hn Hm] _ IH]; intros G G' HG; simpl.
  - now intros [= <-].
  - destruct (step fuel e G) as [G1|] eqn:E; [|discriminate].
    apply IH. now apply (step_inStep fuel e G).
Qed.

(** C4 fails on the code.  A wrong guess sets a timer that enables the
    buttons again; New Game does not cancel it.  After the next correct
    guess the score is 1 and further guesses are ignored, until the stale
    timer fires: the buttons are enabled on the round already won, and
    guessing its target again brings the score to 2. *)
Theorem C4_stale_timer_double_count :
  let wrong := "hsl(212, 93%, 53%)" in
  let target := "hsl(247, 79%, 63%)" in
  let played := [Mount; Guess wrong; NewGame; Guess target] in
  option_map snapshot (run 5 played (start spread))
    = Some (target, 1, true, [AfterWrong; AfterCorrect]) /\
  option_map snapshot (run 5 (played ++ [Guess target]) (start spread))
    = Some (target, 1, true, [AfterWrong; AfterCorrect]) /\
  option_map snapshot (run 5 (played ++ [Timeout]) (start spread))
    = Some (target, 1, false, [AfterCorrect]) /\
  option_map (fun G => colorOptions (ui G)) (run 5 (played ++ [Timeout]) (start spread))
    = option_map (fun G => colorOptions (ui G)) (run 5 played (start spread)) /\
  option_map snapshot (run 5 (played ++ [Timeout; Guess target]) (start spread))
    = Some (target, 2, true, [AfterCorrect; AfterCorrect]).
Proof. repeat split; vm_compute; reflexivity. Qed.

End Play.

(* ===================================================================== *)
(** * Score and feedback over a whole play *)
(* ===================================================================== *)

Section ScoreAndFeedback.

Import Js ColorGame.

Lemma handleGuess_score (color : string) (s : State) :
  score s <= score (after (handleGuess color s)) <= score s + 1.
Proof.
  unfold handleGuess. destruct (isAnimating s); simpl; [lia|].
  destruct (color =? targetColor s)%string; simpl; lia.
Qed.

Lemma fire_score (fuel : nat) (t : Timer) (s s' : State) (g g' : Rng) :
  fire fuel t s g = Some (s', g') -> score s' = score s.
Proof.
  destruct t; simpl; intros H.
  - now apply resetGame_spec in H as (_ & _ & _ & _ & -> & _).
  - now injection H as <- _.
Qed.

Lemma step_score_change (fuel : nat) (e : Event) (G G' : Game) :
  step fuel e G = Some G' ->
  (e = NewGame /\ score (ui G') = 0) \/
  (e <> NewGame /\
   score (ui G) <= score (ui G')
     <= score (ui G) + (if isGuess e then 1 else 0)).
Proof.
  destruct e; simpl.
  - destruct (resetGame fuel (ui G) (rng G)) as [[s g]|] eqn:E; [|discriminate].
    intros [= <-]. right. split; [discriminate|]. simpl.
    apply resetGame_spec in E as (_ & _ & _ & _ & -> & _). lia.
  - intros [= <-]. right. split; [discriminate|]. simpl.
    apply handleGuess_score.
  - destruct (startNewGame fuel (ui G) (rng G)) as [[s g]|] eqn:E; [|discriminate].
    intros [= <-]. left. split; [reflexivity|]. simpl.
    now apply startNewGame_score in E.
  - destruct (pending G) as [|t rest].
    { intros [= <-]. right. split; [discriminate|]. lia. }
    destruct (fire fuel t (ui G) (rng G)) as [[s g]|] eqn:E; [|discriminate].
    intros [= <-]. right. split; [discriminate|].
    simpl. apply fire_score in E. lia.
Qed.

(** Only the New Game button takes points away: any other event leaves
    the score as it is or adds exactly one point, and only a guess can
    add it. *)
Theorem score_only_grows (fuel : nat) (e : Event) (G G' : Game) :
  step fuel e G = Some G' -> e <> NewGame ->
  score (ui G) <= score (ui G') <= score (ui G) + (if isGuess e then 1 else 0).
Proof.
  intros H Hn. apply step_score_change in H as [[E _]|[_ H]];
    [contradiction|exact H].
Qed.

Lemma score_only_grows_witness :
  exists G',
    (step 5 (Guess "hsl(222, 77%, 62%)") (mkGame firstRound [] spread) = Some G' /\
     Guess "hsl(222, 77%, 62%)" <> NewGame) /\
    score firstRound <= score (ui G') <= score firstRound + 1.
Proof.
  eexists. split; [split; [reflexivity|discriminate]|].
  apply (score_only_grows 5 (Guess "hsl(222, 77%, 62%)")
           (mkGame firstRound [] spread)); [reflexivity|discriminate].
Defined.

Lemma run_score (fuel : nat) (es : list Event) :
  forall G G', 0 <= score (ui G) -> run fuel es G = Some G' ->
    0 <= score (ui G')
      <= score (ui G) + Z.of_nat (List.length (filter isGuess es)).
Proof.
  induction es as [|e es IH]; intros G G' H0; simpl.
  - intros [= <-]. lia.
  - destruct (step fuel e G) as [G1|] eqn:E; [|discriminate]. intros R.
    apply step_score_change in E as [[-> E]|[_ E]].
    + apply IH in R; [|lia]. simpl. lia.
    + apply IH in R; [|lia].
      destruct (isGuess e); simpl List.length; lia.
Qed.

(** However the game is played, the score is never negative and never
    more than the number of guesses made. *)
Theorem score_within_guesses (fuel : nat) (es : list Event) (g : Rng) (G : Game) :
  run fuel es (start g) = Some G ->
  0 <= score (ui G) <= Z.of_nat (List.length (filter isGuess es)).
Proof.
  intros H. apply run_score in H; simpl in *; lia.
Qed.

Lemma score_within_guesses_witness :
  exists G,
    run 5 [Mount; Guess "hsl(222, 77%, 62%)"; Timeout] (start spread) = Some G /\
    0 <= score (ui G) <= 1.
Proof.
  destruct (run 5 [Mount; Guess "hsl(222, 77%, 62%)"; Timeout] (start spread))
    as [G|] eqn:E.
  - exists G. split; [reflexivity|].
    exact (score_within_guesses 5 _ spread G E).
  - vm_compute in E. discriminate E.
Defined.

Lemma resetGame_feedback (fuel : nat) (s s' : State) (g g' : Rng) :
  resetGame fuel s g = Some (s', g') -> feedbackConsistent s'.
Proof.
  unfold resetGame. destruct (newRound fuel g) as [[r g1]|]; [|discriminate].
  intros [= <- <-]. reflexivity.
Qed.

Lemma handleGuess_feedback (color : string) (s : State) :
  feedbackConsistent s -> feedbackConsistent (after (handleGuess color s)).
Proof.
  unfold handleGuess. destruct (isAnimating s) eqn:Ha; [trivial|].
  intros _. destruct (color =? targetColor s)%string; unfold feedbackConsistent;
    simpl; [left|right]; now split.
Qed.

Lemma step_feedback (fuel : nat) (e : Event) (G G' : Game) :
  feedbackConsistent (ui G) -> step fuel e G = Some G' ->
  feedbackConsistent (ui G').
Proof.
  intros HG. destruct e; simpl.
  - destruct (resetGame fuel (ui G) (rng G)) as [[s g]|] eqn:E; [|discriminate].
    intros [= <-]. now apply resetGame_feedback in E.
  - intros [= <-]. now apply handleGuess_feedback.
  - destruct (startNewGame fuel (ui G) (rng G)) as [[s g]|] eqn:E; [|discriminate].
    intros [= <-]. now apply resetGame_feedback in E.
  - destruct (pending G) as [|t rest]; [now intros [= <-]|].
    destruct (fire fuel t (ui G) (rng G)) as [[s g]|] eqn:E; [|discriminate].
    intros [= <-]. simpl. destruct t; simpl in E.
    + now apply resetGame_feedback in E.
    + injection E as <- _. reflexivity.
Qed.

(** In every state a play can reach, stale timers included: while the
    buttons are disabled the status line holds one of the two messages
    in its own colour (green for correct, red for wrong), and while they
    are enabled the text is grey. *)
Theorem feedback_always_consistent (fuel : nat) (es : list Event) (g : Rng) (G : Game) :
  run fuel es (start g) = Some G -> feedbackConsistent (ui G).
Proof.
  assert (R : forall G0, feedbackConsistent (ui G0) ->
                run fuel es G0 = Some G -> feedbackConsistent (ui G)).
  { induction es as [|e es IH]; intros G0 H0; simpl.
    - now intros [= <-].
    - destruct (step fuel e G0) as [G1|] eqn:E; [|discriminate].
      apply IH. now apply (step_feedback fuel e G0). }
  apply R. reflexivity.
Qed.

Lemma feedback_always_consistent_witness :
  exists G,
    run 5 [Mount; Guess "hsl(212, 93%, 53%)"; NewGame;
           Guess "hsl(247, 79%, 63%)"; Timeout] (start spread) = Some G /\
    feedbackConsistent (ui G).
Proof.
  destruct (run 5 [Mount; Guess "hsl(212, 93%, 53%)"; NewGame;
                   Guess "hsl(247, 79%, 63%)"; Timeout] (start spread))
    as [G|] eqn:E.
  - exists G. split; [reflexivity|].
    exact (feedback_always_consistent 5 _ spread G E).
  - vm_compute in E. discriminate E.
Defined.

End ScoreAndFeedback.

(* ===================================================================== *)
(** * The option buttons *)
(* ===================================================================== *)

Section Buttons.

Import Js ColorGame.

Lemma occurs_app (c : ascii) (a b : string) :
  occurs c (a ++ b) = occurs c a || occurs c b.
Proof.
  induction a as [|x a IH]; cbn [append occurs]; trivial.
  now rewrite IH, orb_assoc.
Qed.

(** Two texts that end after the same last delimiter are cut at the same
    place. *)
Lemma append_last_delim_inj (c : ascii) (a a' d d' : string) :
  occurs c d = false -> occurs c d' = false ->
  (a ++ String c d = a' ++ String c d')%string -> a = a' /\ d = d'.
Proof.
  intros Hd Hd'. revert a'.
  induction a as [|x a IH]; intros [|x' a'] E; cbn [append] in E.
  - injection E as ->. now split.
  - injection E as <- ->. rewrite occurs_app in Hd. cbn [occurs] in Hd.
    rewrite Ascii.eqb_refl, orb_true_r in Hd. discriminate.
  - injection E as -> <-. rewrite occurs_app in Hd'. cbn [occurs] in Hd'.
    rewrite Ascii.eqb_refl, orb_true_r in Hd'. discriminate.
  - injection E as -> E. destruct (IH a' E) as [-> ->]. now split.
Qed.

Lemma uint_no_dash (d : uint) :
  occurs "-" (NilEmpty.string_of_uint d) = false.
Proof. induction d; cbn [NilEmpty.string_of_uint occurs]; trivial. Qed.

(** An index prints without a minus sign. *)
Lemma index_no_dash (i : nat) :
  occurs "-" (number_to_string (Z.of_nat i)) = false.
Proof.
  unfold number_to_string.
  destruct (Z.of_nat i) as [|p|p] eqn:E; [reflexivity| |lia].
  cbn [Z.to_int NilZero.string_of_int].
  destruct (Pos.to_uint p) as [|u|u|u|u|u|u|u|u|u|u]; [reflexivity|..];
    unfold NilZero.string_of_uint; apply uint_no_dash.
Qed.

Lemma buttonsFrom_keys (colors : list string) (animating : bool) :
  forall index k,
    In k (map key (buttonsFrom index colors animating)) ->
    exists color i, (index <= i)%nat /\
      k = (color ++ String "-" (number_to_string (Z.of_nat i)))%string.
Proof.
  induction colors as [|c cs IH]; intros index k; cbn [buttonsFrom map].
  - intros [].
  - intros [<-|H].
    + exists c, index. split; [lia|reflexivity].
    + apply IH in H as (color & i & Hi & ->). exists color, i. split; [lia|trivial].
Qed.

Lemma buttonsFrom_keys_NoDup (colors : list string) (animating : bool) :
  forall index, NoDup (map key (buttonsFrom index colors animating)).
Proof.
  induction colors as [|c cs IH]; intros index; cbn [buttonsFrom map].
  - constructor.
  - constructor; [|apply IH].
    intros H. apply buttonsFrom_keys in H as (color & i & Hi & E).
    cbn [key] in E.
    apply append_last_delim_inj in E as [_ E]; try apply index_no_dash.
    apply number_to_string_inj in E. lia.
Qed.

(** The React keys of the option buttons are pairwise different in every
    state, even one whose options repeat a colour: the index that ends
    each key tells them apart. *)
Theorem optionButtons_keys_distinct (s : State) :
  NoDup (map key (optionButtons s)).
Proof. apply buttonsFrom_keys_NoDup. Qed.

Lemma buttonsFrom_colors (colors : list string) (animating : bool) :
  forall index, map backgroundColor (buttonsFrom index colors animating) = colors.
Proof.
  induction colors as [|c cs IH]; intros index; cbn [buttonsFrom map]; trivial.
  now rewrite IH.
Qed.

Lemma buttonsFrom_disabled (colors : list string) (animating : bool) :
  forall index,
    Forall (fun b => disabled b = animating) (buttonsFrom index colors animating).
Proof.
  induction colors as [|c cs IH]; intros index; cbn [buttonsFrom];
    constructor; [reflexivity|apply IH].
Qed.

Lemma wins_target (s : State) (color : string) :
  isAnimating s = false -> wins s color = (color =? targetColor s)%string.
Proof.
  intros Ha. unfold wins, handleGuess. rewrite Ha.
  now destruct (color =? targetColor s)%string.
Qed.

Lemma winners_count (s : State) (colors : list string) :
  isAnimating s = false ->
  forall index,
    List.length (filter (fun b => wins s (backgroundColor b))
                        (buttonsFrom index colors (isAnimating s)))
    = count_occ string_dec colors (targetColor s).
Proof.
  intros Ha. induction colors as [|c cs IH]; intros index;
    cbn [buttonsFrom filter count_occ backgroundColor]; trivial.
  rewrite (wins_target s c Ha).
  destruct (String.eqb_spec c (targetColor s)) as [E|E];
    destruct (string_dec c (targetColor s)); try contradiction;
    cbn [List.length]; now rewrite IH.
Qed.

(** Every round that [resetGame] produces is shown as six enabled
    buttons, and exactly one of them scores when clicked. *)
Theorem one_button_wins (fuel : nat) (s : State) (g : Rng) (s' : State) (g' : Rng) :
  resetGame fuel s g = Some (s', g') ->
  List.length (optionButtons s') = 6%nat /\
  Forall (fun b => disabled b = false) (optionButtons s') /\
  List.length (filter (fun b => wins s' (backgroundColor b)) (optionButtons s'))
  = 1%nat.
Proof.
  intros H.
  pose proof (resetGame_valid _ _ _ _ _ H) as ((Hl & Hc & _) & _).
  apply resetGame_spec in H as (_ & _ & _ & _ & _ & Ha).
  unfold optionButtons. repeat split.
  - rewrite <- (length_map backgroundColor), buttonsFrom_colors. exact Hl.
  - rewrite Ha. apply buttonsFrom_disabled.
  - rewrite (winners_count s' _ Ha). exact Hc.
Qed.

Lemma one_button_wins_witness :
  exists s' g',
    resetGame 5 initialState spread = Some (s', g') /\
    List.length (optionButtons s') = 6%nat /\
    Forall (fun b => disabled b = false) (optionButtons s') /\
    List.length (filter (fun b => wins s' (backgroundColor b)) (optionButtons s'))
    = 1%nat.
Proof.
  eexists. eexists.
  assert (E : resetGame 5 initialState spread
              = Some (firstRound, mkRng (samples spread) 26)) by (vm_compute; reflexivity).
  split; [exact E|].
  exact (one_button_wins 5 initialState spread _ _ E).
Defined.

End Buttons.

(* ===================================================================== *)
(** * What the random source decides *)
(* ===================================================================== *)

Section RandomSource.

Import Js ColorGame.

(** [resetGame] gets out of its loop within [fuel] turns exactly when the
    target and the next [fuel] similar colours count six different
    strings. *)
Theorem newRound_iff_variedEnough (fuel : nat) (g : Rng) :
  (exists r g', newRound fuel g = Some (r, g')) <-> variedEnough fuel g = true.
Proof.
  split.
  - intros (r & g' & H). exact (newRound_variedEnough fuel g r g' H).
  - apply newRound_total.
Qed.

Lemma stuck_similar (b k : Z) (at_ : nat) :
  generateSimilarColor b (stuck k at_)
  = (fst (generateSimilarColor b (stuck k 0)), stuck k (3 + at_)).
Proof. reflexivity. Qed.

Lemma stuck_upcoming (b k : Z) (fuel : nat) :
  forall at_,
    upcoming fuel b (stuck k at_)
    = repeat (fst (generateSimilarColor b (stuck k 0))) fuel.
Proof.
  induction fuel as [|fuel IH]; intros at_; cbn [upcoming repeat]; trivial.
  rewrite stuck_similar. now rewrite IH.
Qed.

(** A source that returns the same sample at every call never lets
    [resetGame] finish, whatever the sample and however long the loop
    runs: every turn draws the same similar colour. *)
Theorem constant_source_never_finishes (k : Z) (at_ fuel : nat) (s : State) :
  resetGame fuel s (stuck k at_) = None.
Proof.
  unfold resetGame.
  destruct (newRound fuel (stuck k at_)) as [[r g']|] eqn:E; [|reflexivity].
  apply newRound_variedEnough in E. exfalso.
  unfold variedEnough in E.
  change (floor_random_times 360 (stuck k at_))
    with (k mod two53 * 360 / two53, stuck k (S at_)) in E.
  cbv beta iota in E.
  change (generateRandomColor (Some (k mod two53 * 360 / two53)) (stuck k (S at_)))
    with (fst (generateRandomColor (Some (k mod two53 * 360 / two53))
                 (stuck k (S at_))), stuck k (3 + at_)) in E.
  cbv beta iota in E. rewrite stuck_upcoming in E.
  apply Nat.leb_le in E.
  set (b := k mod two53 * 360 / two53) in *.
  set (t := fst (generateRandomColor (Some b) (stuck k (S at_)))) in *.
  set (c := fst (generateSimilarColor b (stuck k 0))) in *.
  assert (L : (List.length (nodup string_dec (t :: repeat c fuel)) <= 2)%nat).
  { change 2%nat with (List.length [t; c]).
    apply NoDup_incl_length; [apply NoDup_nodup|].
    intros x Hx. apply nodup_In in Hx as [<-|Hx]; [now left|].
    apply repeat_spec in Hx. subst. right. now left. }
  lia.
Qed.

Lemma floor_random_times_eq (n v : Z) (g : Rng) :
  0 < n < two53 -> 0 <= v < n ->
  samples g (cursor g) = sampleFor n v ->
  floor_random_times n g = (v, mkRng (samples g) (S (cursor g))).
Proof.
  intros Hn Hv E. unfold floor_random_times, bind, ret, Math_random.
  rewrite E. unfold sampleFor. f_equal.
  assert (T : 0 < two53) by reflexivity.
  pose proof (Z.div_mod (v * two53) n ltac:(lia)) as D.
  pose proof (Z.mod_pos_bound (v * two53) n ltac:(lia)) as R.
  set (q := v * two53 / n) in *. set (r := (v * two53) mod n) in *.
  assert (Q : 0 <= q) by (apply Z.div_pos; nia).
  assert (Q1 : q + 1 < two53) by nia.
  rewrite (Z.mod_small (q + 1)) by lia.
  symmetry. apply (Z.div_unique _ _ _ (n - r)); [left; lia|nia].
Qed.



(** The hue variation of [generateSimilarColor] takes every value from
    -15 to 14 and no other. *)
Theorem hueVariation_exact_range (v : Z) :
  (exists g, fst (hueVariation g) = v) <-> -15 <= v <= 14.
Proof.
  split.
  - intros (g & <-). apply hueVariation_range.
  - intros Hv. exists (stuck (sampleFor 30 (v + 15)) 0).
    unfold hueVariation, bind, ret.
    rewrite (floor_random_times_eq 30 (v + 15)); simpl; trivial; try lia.
    split; reflexivity.
Qed.

(** [generateRandomColor()] without a base hue returns exactly the
    well-formed colours: every triple within the ranges is drawn by some
    source, and nothing else is. *)
Theorem generateRandomColor_exact_range (c : string) :
  (exists g, fst (generateRandomColor None g) = c) <-> wellFormed c.
Proof.
  split.
  - intros (g & <-). apply generateRandomColor_None.
  - intros ([[h s] l] & -> & Hh & Hs & Hl).
    exists (replay [sampleFor 360 h; sampleFor 30 (s - 70); sampleFor 20 (l - 45)]).
    unfold generateRandomColor, bind, ret.
    rewrite (floor_random_times_eq 360 h); trivial; try (split; reflexivity || lia).
    rewrite (floor_random_times_eq 30 (s - 70)); trivial;
      try (split; reflexivity || lia).
    rewrite (floor_random_times_eq 20 (l - 45)); trivial;
      try (split; reflexivity || lia).
    cbn [fst render]. f_equal; lia.
Qed.


End RandomSource.

(* ===================================================================== *)
(** * A round from guess to guess *)
(* ===================================================================== *)

Section RoundTrips.

Import Js ColorGame.

Lemma run_app (fuel : nat) (es1 es2 : list Event) :
  forall G,
    run fuel (es1 ++ es2) G
    = match run fuel es1 G with
      | Some G1 => run fuel es2 G1
      | None => None
      end.
Proof.
  induction es1 as [|e es IH]; intros G; simpl; trivial.
  destruct (step fuel e G); trivial.
Qed.

Lemma open_game_no_timer (G : Game) :
  inStep G -> isAnimating (ui G) = false -> pending G = [].
Proof. intros [[_ H]|[H _]] Ha; [exact H|congruence]. Qed.

(** From the mount on, as long as New Game is not clicked, the buttons
    are disabled exactly while one timer is pending: no timer is ever
    left over. *)
Theorem play_without_NewGame_inStep
    (fuel : nat) (es : list Event) (g : Rng) (G : Game) :
  Forall (fun e => e <> NewGame /\ e <> Mount) es ->
  run fuel (Mount :: es) (start g) = Some G ->
  inStep G.
Proof.
  intros Hes. cbn [run step].
  destruct (resetGame fuel (ui (start g)) (rng (start g))) as [[s g1]|] eqn:E;
    [|discriminate].
  apply (run_inStep fuel es Hes).
  left. split; [|reflexivity]. simpl.
  now apply resetGame_spec in E as (_ & _ & _ & _ & _ & ->).
Qed.

Lemma play_without_NewGame_inStep_witness :
  exists G,
    (Forall (fun e => e <> NewGame /\ e <> Mount)
            [Guess "hsl(212, 93%, 53%)"; Guess "hsl(222, 77%, 62%)"; Timeout] /\
     run 5 (Mount :: [Guess "hsl(212, 93%, 53%)"; Guess "hsl(222, 77%, 62%)"; Timeout])
         (start spread) = Some G) /\
    inStep G.
Proof.
  assert (F : Forall (fun e => e <> NewGame /\ e <> Mount)
                [Guess "hsl(212, 93%, 53%)"; Guess "hsl(222, 77%, 62%)"; Timeout])
    by (repeat constructor; discriminate).
  destruct (run 5 (Mount :: [Guess "hsl(212, 93%, 53%)";
                             Guess "hsl(222, 77%, 62%)"; Timeout]) (start spread))
    as [G|] eqn:E.
  - exists G. split; [split; [exact F|reflexivity]|].
    exact (play_without_NewGame_inStep 5 _ spread G F E).
  - vm_compute in E. discriminate E.
Defined.

(** With no timer left over, a correct guess earns one point, every
    further click is ignored, and when the timer fires a fresh valid
    round is on display with the buttons enabled: one point per round. *)
Theorem correct_guess_then_next_round
    (fuel : nat) (G : Game) (clicks : list string) :
  inStep G -> isAnimating (ui G) = false ->
  variedEnough fuel (rng G) = true ->
  exists G',
    run fuel (Guess (targetColor (ui G)) :: map Guess clicks ++ [Timeout]) G
    = Some G' /\
    score (ui G') = score (ui G) + 1 /\
    validRound (ui G') /\
    isAnimating (ui G') = false /\ pending G' = [].
Proof.
  intros HG Ha Hv. pose proof (open_game_no_timer G HG Ha) as Hp.
  cbn [run step]. unfold handleGuess. rewrite Ha, String.eqb_refl, Hp.
  cbn [after scheduled app]. rewrite run_app.
  rewrite guesses_while_animating by reflexivity.
  cbn [run step pending ui rng]. rewrite !app_nil_l. cbn [fire].
  match goal with
  | |- context [resetGame fuel ?s (rng G)] =>
      destruct (resetGame_total fuel s (rng G) Hv) as (s' & g' & E); rewrite E
  end.
  exists (mkGame s' [] g'). split; [reflexivity|].
  pose proof (resetGame_valid _ _ _ _ _ E) as (V & _).
  apply resetGame_spec in E as (r & _ & _ & _ & Hs & Hi).
  repeat split; trivial; apply V.
Qed.

Lemma correct_guess_then_next_round_witness :
  (inStep (mkGame firstRound [] (mkRng (samples spread) 26)) /\
   isAnimating firstRound = false /\
   variedEnough 5 (mkRng (samples spread) 26) = true) /\
  exists G',
    run 5 (Guess (targetColor firstRound)
             :: map Guess ["hsl(222, 77%, 62%)"; "hsl(212, 93%, 53%)"] ++ [Timeout])
        (mkGame firstRound [] (mkRng (samples spread) 26))
    = Some G' /\
    score (ui G') = score firstRound + 1 /\
    validRound (ui G') /\
    isAnimating (ui G') = false /\ pending G' = [].
Proof.
  assert (I : inStep (mkGame firstRound [] (mkRng (samples spread) 26)))
    by (left; split; reflexivity).
  assert (V : variedEnough 5 (mkRng (samples spread) 26) = true)
    by (vm_compute; reflexivity).
  split; [repeat split; trivial|].
  exact (correct_guess_then_next_round 5
           (mkGame firstRound [] (mkRng (samples spread) 26))
           ["hsl(222, 77%, 62%)"; "hsl(212, 93%, 53%)"] I eq_refl V).
Defined.

(** With no timer left over, a wrong guess costs nothing: once its timer
    has fired, the same round is still there and guessing its target
    earns the point. *)
Theorem wrong_guess_then_retry (fuel : nat) (G : Game) (color : string) :
  inStep G -> isAnimating (ui G) = false -> color <> targetColor (ui G) ->
  exists G',
    run fuel [Guess color; Timeout; Guess (targetColor (ui G))] G = Some G' /\
    score (ui G') = score (ui G) + 1 /\
    targetColor (ui G') = targetColor (ui G) /\
    colorOptions (ui G') = colorOptions (ui G) /\
    gameStatus (ui G') = correctMessage /\
    pending G' = [AfterCorrect].
Proof.
  intros HG Ha Hne. pose proof (open_game_no_timer G HG Ha) as Hp.
  cbn [run step]. rewrite (handleGuess_wrong color (ui G) Ha Hne), Hp.
  cbn [after scheduled pending ui rng]. rewrite !app_nil_l.
  cbn [fire ui rng pending]. unfold handleGuess.
  cbn [isAnimating setIsAnimating setTextColor setGameStatus targetColor].
  rewrite String.eqb_refl.
  eexists. split; [reflexivity|]. repeat split.
Qed.

Lemma wrong_guess_then_retry_witness :
  (inStep (mkGame firstRound [] spread) /\ isAnimating firstRound = false /\
   "hsl(212, 93%, 53%)" <> targetColor firstRound) /\
  exists G',
    run 5 [Guess "hsl(212, 93%, 53%)"; Timeout; Guess (targetColor firstRound)]
        (mkGame firstRound [] spread) = Some G' /\
    score (ui G') = score firstRound + 1 /\
    targetColor (ui G') = targetColor firstRound /\
    colorOptions (ui G') = colorOptions firstRound /\
    gameStatus (ui G') = correctMessage /\
    pending G' = [AfterCorrect].
Proof.
  assert (I : inStep (mkGame firstRound [] spread)) by (left; split; reflexivity).
  assert (N : "hsl(212, 93%, 53%)" <> targetColor firstRound) by discriminate.
  split; [repeat split; trivial|].
  exact (wrong_guess_then_retry 5 (mkGame firstRound [] spread)
           "hsl(212, 93%, 53%)" I eq_refl N).
Defined.

(** New Game cancels no timer: it enables the buttons and leaves every
    pending timer in place, so a game that had one pending is out of
    step afterwards. *)
Theorem NewGame_leaves_timers (fuel : nat) (G G' : Game) :
  step fuel NewGame G = Some G' -> pending G <> [] ->
  pending G' = pending G /\ isAnimating (ui G') = false /\ ~ inStep G'.
Proof.
  cbn [step].
  destruct (startNewGame fuel (ui G) (rng G)) as [[s g]|] eqn:E; [|discriminate].
  intros [= <-] Hp. unfold startNewGame in E.
  apply resetGame_spec in E as (r & _ & _ & _ & _ & Ha).
  cbn [pending ui]. repeat split; trivial.
  intros [[_ H]|[H _]]; cbn [pending ui] in H; congruence.
Qed.

Lemma NewGame_leaves_timers_witness :
  exists G',
    (step 5 NewGame
       (mkGame (after (handleGuess "hsl(212, 93%, 53%)" firstRound))
               [AfterWrong] spread) = Some G' /\
     [AfterWrong] <> []) /\
    pending G' = [AfterWrong] /\ isAnimating (ui G') = false /\ ~ inStep G'.
Proof.
  destruct (step 5 NewGame
              (mkGame (after (handleGuess "hsl(212, 93%, 53%)" firstRound))
                      [AfterWrong] spread))
    as [G'|] eqn:E.
  - exists G'. split; [split; [reflexivity|discriminate]|].
    apply (NewGame_leaves_timers 5
             (mkGame (after (handleGuess "hsl(212, 93%, 53%)" firstRound))
                     [AfterWrong] spread) G' E).
    discriminate.
  - vm_compute in E. discriminate E.
Defined.

End RoundTrips.
